(** * Root route of the storefront: URL canonicalisation, SEO descriptor,
      revalidation policy, page data loader and error boundary.

    A shallow embedding of [app/root.tsx].  JavaScript strings are modelled
    as [string] (byte strings holding UTF-8): the pathname, origin and host
    of a parsed URL are ASCII, and the [application/x-www-form-urlencoded]
    serialiser works on the UTF-8 bytes of names and values. *)

From Stdlib Require Import String Ascii List Bool Arith ZArith Lia.
Import ListNotations.
Local Open Scope list_scope.
Local Open Scope string_scope.
Local Open Scope nat_scope.
Local Set Warnings "-register-all".

(** ** String helpers shared by the whole development *)

(** JavaScript truthiness of a string: every string but the empty one. *)
Definition truthy (s : string) : bool :=
  match s with
  | EmptyString => false
  | String _ _ => true
  end.

(** [contains c s]: the character [c] occurs in [s]. *)
Fixpoint contains (c : ascii) (s : string) : bool :=
  match s with
  | EmptyString => false
  | String x t => Ascii.eqb x c || contains c t
  end.

(** [drop n s]: [s.slice(n)]. *)
Fixpoint drop (n : nat) (s : string) : string :=
  match n, s with
  | O, _ => s
  | S _, EmptyString => EmptyString
  | S k, String _ t => drop k t
  end.

(** [take n s]: [s.slice(0, n)]. *)
Fixpoint take (n : nat) (s : string) : string :=
  match n, s with
  | O, _ => EmptyString
  | S _, EmptyString => EmptyString
  | S k, String c t => String c (take k t)
  end.

(** [String.prototype.replace] with a string pattern and a replacement
    without [$] patterns: the first occurrence of [pat] is replaced, and the
    string is returned as it is when [pat] does not occur. *)
Fixpoint String_replace (pat rep s : string) : string :=
  if String.prefix pat s then rep ++ drop (String.length pat) s
  else match s with
       | EmptyString => EmptyString
       | String c t => String c (String_replace pat rep t)
       end.

(** [Array.prototype.includes] on an array of strings. *)
Definition includes (l : list string) (k : string) : bool :=
  existsb (String.eqb k) l.

(** ** The [application/x-www-form-urlencoded] serialiser
    ([new URLSearchParams(pairs).toString()]) *)

Module Urlencoded.

Definition hexDigit (n : nat) : ascii :=
  if n <? 10 then ascii_of_nat (48 + n) else ascii_of_nat (55 + n).

(** Bytes the serialiser leaves as they are: ASCII alphanumerics and
    [*], [-], [.], [_]. *)
Definition unreserved (c : ascii) : bool :=
  let n := nat_of_ascii c in
  (n =? 42) || (n =? 45) || (n =? 46) || (n =? 95)
  || ((48 <=? n) && (n <=? 57))
  || ((65 <=? n) && (n <=? 90))
  || ((97 <=? n) && (n <=? 122)).

Definition space : ascii := " "%char.

(** One byte: a space becomes [+], an unreserved byte stays, any other byte
    becomes [%XX] with upper-case hexadecimal digits. *)
Definition encodeByte (c : ascii) : string :=
  if Ascii.eqb c space then "+"
  else if unreserved c then String c EmptyString
  else let n := nat_of_ascii c in
       String "%" (String (hexDigit (n / 16)) (String (hexDigit (n mod 16)) EmptyString)).

Fixpoint encode (s : string) : string :=
  match s with
  | EmptyString => EmptyString
  | String c t => encodeByte c ++ encode t
  end.

Definition encodePair (p : string * string) : string :=
  encode (fst p) ++ "=" ++ encode (snd p).

(** [serialize]: the tuples joined with [&]. *)
Fixpoint serialize (l : list (string * string)) : string :=
  match l with
  | [] => EmptyString
  | [p] => encodePair p
  | p :: r => encodePair p ++ "&" ++ serialize r
  end.

(** *** The matching parser, used to read back the query of a produced URL
    (what [new URL(s).searchParams] holds). *)

(** Strict split on a separator. *)
Fixpoint splitOn (sep : ascii) (s : string) : list string :=
  match s with
  | EmptyString => [EmptyString]
  | String c t =>
      if Ascii.eqb c sep then EmptyString :: splitOn sep t
      else match splitOn sep t with
           | h :: r => String c h :: r
           | [] => [String c EmptyString]
           end
  end.

(** Split at the first occurrence of [sep]; [None] when there is none. *)
Fixpoint cut (sep : ascii) (s : string) : option (string * string) :=
  match s with
  | EmptyString => None
  | String c t =>
      if Ascii.eqb c sep then Some (EmptyString, t)
      else match cut sep t with
           | Some (a, b) => Some (String c a, b)
           | None => None
           end
  end.

Definition hexValue (c : ascii) : option nat :=
  let n := nat_of_ascii c in
  if (48 <=? n) && (n <=? 57) then Some (n - 48)
  else if (65 <=? n) && (n <=? 70) then Some (n - 55)
  else if (97 <=? n) && (n <=? 102) then Some (n - 87)
  else None.

(** Percent-decoding: [%] followed by two hexadecimal digits is one byte;
    any other byte, a stray [%] included, stands for itself. *)
Fixpoint percentDecode (s : string) : string :=
  match s with
  | EmptyString => EmptyString
  | String c t =>
      let plain := String c (percentDecode t) in
      if Ascii.eqb c "%" then
        match t with
        | String h (String l rest) =>
            match hexValue h, hexValue l with
            | Some a, Some b => String (ascii_of_nat (16 * a + b)) (percentDecode rest)
            | _, _ => plain
            end
        | _ => plain
        end
      else plain
  end.

Fixpoint plusToSpace (s : string) : string :=
  match s with
  | EmptyString => EmptyString
  | String c t => String (if Ascii.eqb c "+" then space else c) (plusToSpace t)
  end.

Definition decode (s : string) : string := percentDecode (plusToSpace s).

Definition parseSequence (s : string) : list (string * string) :=
  match s with
  | EmptyString => []
  | _ => match cut "=" s with
         | Some (n, v) => [(decode n, decode v)]
         | None => [(decode s, EmptyString)]
         end
  end.

Definition parse (s : string) : list (string * string) :=
  flat_map parseSequence (splitOn "&" s).

End Urlencoded.

(** ** The parsed request URL (the attributes of a [URL] object the file reads) *)

Record URL := mkURL {
  href : string;                          (* [toString()] *)
  origin : string;
  host : string;
  pathname : string;
  searchParams : list (string * string)   (* decoded name-value pairs, in order *)
}.

(** What the URL parser guarantees and the canonicaliser relies on: neither
    the origin nor the pathname holds a [?] (it ends the path in the parser
    and is percent-encoded inside a path segment). *)
Definition wellFormed (u : URL) : Prop :=
  contains "?" (origin u) = false /\ contains "?" (pathname u) = false.

(** ** URL canonicaliser *)

Definition whitelistedParams : list string := ["color"].

Definition keptParams (u : URL) : list (string * string) :=
  filter (fun p => includes whitelistedParams (fst p)) (searchParams u).

Definition cleanParams (u : URL) : string :=
  Urlencoded.serialize (keptParams u).

(** *** The regular expression [/^\/([a-z]{2})-([a-z]{2})(\/|$)/i] *)

(** [[a-z]] under the [i] flag (no [u] flag): the ASCII letters of both cases. *)
Definition letter_i (c : ascii) : bool :=
  let n := nat_of_ascii c in
  ((97 <=? n) && (n <=? 122)) || ((65 <=? n) && (n <=? 90)).

(** Each matcher consumes a piece of the input and gives what is left. *)
Definition lit (c : ascii) (s : string) : option string :=
  match s with
  | String x t => if Ascii.eqb x c then Some t else None
  | EmptyString => None
  end.

Definition cls (s : string) : option string :=
  match s with
  | String x t => if letter_i x then Some t else None
  | EmptyString => None
  end.

Definition andThen (m : option string) (k : string -> option string) : option string :=
  match m with
  | Some s => k s
  | None => None
  end.

(** [(\/|$)]: a slash, or else the end of the input. *)
Definition slashOrEnd (s : string) : option string :=
  match lit "/" s with
  | Some t => Some t
  | None => match s with
            | EmptyString => Some EmptyString
            | String _ _ => None
            end
  end.

(** [localeExec p] is [localeMatch[0]] of [exec]: the matched text, which
    starts at index 0 because of [^]. *)
Definition localeExec (p : string) : option string :=
  match andThen (andThen (andThen (andThen (andThen (andThen (lit "/" p) cls) cls)
                            (lit "-")) cls) cls) slashOrEnd with
  | Some rest => Some (take (String.length p - String.length rest) p)
  | None => None
  end.

Definition cleanLocaleFromPathname (u : URL) : string :=
  match localeExec (pathname u) with
  | Some m => String_replace m "/" (pathname u)
  | None => pathname u
  end.

Record Hreflang := mkHreflang {
  language : string;
  url : string;
  default : bool
}.

Definition createHreflangs (u : URL) : list Hreflang :=
  let paramString := cleanParams u in
  let pathname := cleanLocaleFromPathname u in
  [ {| language := "en-us";
       url := origin u ++ pathname ++ (if truthy paramString then "?" ++ paramString else "");
       default := true |} ].

Definition createCanonicalUrl (u : URL) : string :=
  let paramString := cleanParams u in
  let pathname := cleanLocaleFromPathname u in
  if truthy paramString
  then origin u ++ pathname ++ "?" ++ paramString
  else origin u ++ pathname.

Definition exampleUrl : URL :=
  {| href := "https://www.honeylove.com/en-us/shop?color=red&ref=abc";
     origin := "https://www.honeylove.com";
     host := "www.honeylove.com";
     pathname := "/en-us/shop";
     searchParams := [("color", "red"); ("ref", "abc")] |}.

(** ** SEO descriptor *)

Record Media := mkMedia {
  media_type : string;
  media_url : string;
  height : Z;
  width : Z;
  altText : string
}.

Record Robots := mkRobots { noFollow : bool }.

Record JsonLd := mkJsonLd {
  ld_context : string;
  ld_type : string;
  ld_id : string;
  ld_name : string;
  logo : string;
  sameAs : list string;
  ld_url : string
}.

Record Seo := mkSeo {
  title : string;
  description : string;
  titleTemplate : string;
  media : Media;
  handle : string;
  seo_url : string;
  robots : Robots;
  alternates : list Hreflang;
  jsonLd : JsonLd
}.

(** [rootSeo] receives the request's URL, modelled after [new URL(url)]. *)
Definition rootSeo (urlObject : URL) : Seo :=
  let noIndex :=
    String.eqb (host urlObject) "dev.honeylove.com"
    || String.eqb (host urlObject) "staging.honeylove.com" in
  let canonicalUrl := createCanonicalUrl urlObject in
  let hreflangs := createHreflangs urlObject in
  {| title := "Honeylove® · Where function meets fashion";
     description := "Honeylove makes stylish garments with built-in shaping power, applying technical and artistic products for customers of all shapes, sizes, and backgrounds.";
     titleTemplate := "%s";
     media := {| media_type := "image";
                 media_url := "og_homepage_480x.png";
                 height := 252;
                 width := 480;
                 altText := "Models in a grid" |};
     handle := "@gethoneylove";
     seo_url := canonicalUrl;
     robots := {| noFollow := noIndex |};
     alternates := hreflangs;
     jsonLd := {| ld_context := "https://schema.org";
                  ld_type := "Organization";
                  ld_id := "https://www.honeylove.com/";
                  ld_name := "Honeylove";
                  logo := "og_homepage_480x.png";
                  sameAs := [ "https://twitter.com/gethoneylove";
                              "https://facebook.com/GetHoneylove";
                              "https://www.instagram.com/honeylove/";
                              "https://youtube.com/@gethoneylove";
                              "https://tiktok.com/@honeylove" ];
                  ld_url := canonicalUrl |} |}.

(** ** Revalidation policy *)

Record ShouldRevalidateArgs := mkRevalidate {
  formMethod : option string;    (* [undefined] is [None] *)
  currentUrl : URL;
  nextUrl : URL
}.

Definition shouldRevalidate (a : ShouldRevalidateArgs) : bool :=
  if match formMethod a with
     | Some m => truthy m && negb (String.eqb m "GET")
     | None => false
     end
  then true
  else if String.eqb (href (currentUrl a)) (href (nextUrl a)) then true
  else false.

(** ** JavaScript values: query results, rejection reasons, thrown values *)

Inductive jsval : Type :=
| JUndefined
| JNull
| JBool (b : bool)
| JNumber (n : Z)
| JString (s : string)
| JObject (fields : list (string * jsval)).

Definition nullish (v : jsval) : bool :=
  match v with
  | JUndefined | JNull => true
  | _ => false
  end.

Definition jsTruthy (v : jsval) : bool :=
  match v with
  | JUndefined | JNull => false
  | JBool b => b
  | JNumber n => negb (Z.eqb n 0)
  | JString s => truthy s
  | JObject _ => true
  end.

Fixpoint lookupField (k : string) (fs : list (string * jsval)) : jsval :=
  match fs with
  | [] => JUndefined
  | (k', v) :: r => if String.eqb k' k then v else lookupField k r
  end.

(** [v?.k]: [undefined] on a nullish value and on a primitive. *)
Definition optProp (v : jsval) (k : string) : jsval :=
  match v with
  | JObject fs => lookupField k fs
  | _ => JUndefined
  end.

(** [a ?? b]. *)
Definition coalesce (a b : jsval) : jsval := if nullish a then b else a.

(** ** Page data loader *)

(** A promise is modelled by how it settles. *)
Inductive Promise (A : Type) : Type :=
| Resolved (a : A)
| Rejected (reason : jsval).
Arguments Resolved {A} a.
Arguments Rejected {A} reason.

(** What [console.error] has received, oldest first. *)
Definition Console := list jsval.

(** Computations that may write to the console. *)
Definition IO (A : Type) : Type := Console -> A * Console.

Definition ret {A} (a : A) : IO A := fun c => (a, c).

Definition bind {A B} (m : IO A) (k : A -> IO B) : IO B :=
  fun c => let (a, c') := m c in k a c'.

Notation "x <- m ;; k" := (bind m (fun x => k))
  (at level 61, m at next level, right associativity).

Definition console_error (e : jsval) : IO unit := fun c => (tt, (c ++ [e])%list).

(** [p.catch(h)] for a handler that returns normally. *)
Definition Promise_catch {A} (p : Promise A) (h : jsval -> IO A) : IO (Promise A) :=
  match p with
  | Resolved a => ret (Resolved a)
  | Rejected e => a <- h e ;; ret (Resolved a)
  end.

(** [Promise.all]: all the values, or the first rejection. *)
Fixpoint Promise_all {A} (ps : list (Promise A)) : Promise (list A) :=
  match ps with
  | [] => Resolved []
  | Resolved a :: r =>
      match Promise_all r with
      | Resolved l => Resolved (a :: l)
      | Rejected e => Rejected e
      end
  | Rejected e :: _ => Rejected e
  end.

(** [await p] inside an async function: go on with the value, or reject the
    function's own promise with the reason. *)
Definition await {A B} (p : Promise A) (k : A -> IO (Promise B)) : IO (Promise B) :=
  match p with
  | Resolved a => k a
  | Rejected e => ret (Rejected e)
  end.

(** The two query documents of [~/lib/fragments]. *)
Inductive Query := HEADER_QUERY | FOOTER_QUERY.

Inductive CachePolicy := CacheLong.

Record QueryOptions := mkOptions {
  cache : CachePolicy;
  variables : list (string * string)
}.

Record Storefront := mkStorefront {
  query : Query -> QueryOptions -> Promise jsval
}.

Record Env := mkEnv {
  PUBLIC_STORE_DOMAIN : string;
  PUBLIC_STOREFRONT_ID : string;
  PUBLIC_CHECKOUT_DOMAIN : string;
  PUBLIC_STOREFRONT_API_TOKEN : string
}.

(** [cart.get()] and [customerAccount.isLoggedIn()] are asynchronous in
    Hydrogen: each call hands back a promise and does not throw. *)
Record AppLoadContext := mkContext {
  storefront : Storefront;
  customerAccount_isLoggedIn : Promise jsval;   (* [customerAccount.isLoggedIn()] *)
  cart_get : Promise jsval;                     (* [cart.get()] *)
  env : Env
}.

Record LoaderFunctionArgs := mkArgs {
  request_url : URL;                            (* [new URL(request.url)] *)
  context : AppLoadContext
}.

Record DeferredData := mkDeferred {
  cart : Promise jsval;
  isLoggedIn : Promise jsval;
  footer : Promise jsval
}.

Record CriticalData := mkCritical { header : jsval }.

Record Consent := mkConsent {
  checkoutDomain : string;
  storefrontAccessToken : string
}.

Record RootData := mkRootData {
  data_cart : Promise jsval;
  data_isLoggedIn : Promise jsval;
  data_footer : Promise jsval;
  data_header : jsval;
  seo : Seo;
  publicStoreDomain : string;
  shop : Promise jsval;
  consent : Consent
}.

(** *** [defer] of Remix

    [defer(data)] wraps every promise-valued field of [data] in a promise of
    its own ([DeferredData.trackPromise]) and leaves the other fields as
    they are.  The wrapper settles as the field does, except that a field
    that resolves with [undefined], or rejects with [undefined], makes the
    wrapper reject with an [Error] that names the key.  Cancellation
    through the wrapper's abort signal is not used by this file. *)

Definition dquote : string := String "034"%char EmptyString.

Definition undefinedError (key : string) : jsval :=
  JObject
    [ ("name", JString "Error");
      ("message",
       JString ("Deferred data for key " ++ dquote ++ key ++ dquote
                ++ " resolved/rejected with `undefined`, "
                ++ "you must resolve/reject with a value or `null`.")) ].

Definition trackPromise (key : string) (value : Promise jsval) : Promise jsval :=
  match value with
  | Resolved JUndefined => Rejected (undefinedError key)
  | Resolved data => Resolved data
  | Rejected JUndefined => Rejected (undefinedError key)
  | Rejected error => Rejected error
  end.

Definition defer (data : RootData) : RootData :=
  {| data_cart := trackPromise "cart" (data_cart data);
     data_isLoggedIn := trackPromise "isLoggedIn" (data_isLoggedIn data);
     data_footer := trackPromise "footer" (data_footer data);
     data_header := data_header data;
     seo := seo data;
     publicStoreDomain := publicStoreDomain data;
     shop := trackPromise "shop" (shop data);
     consent := consent data |}.

Section Loader.

(** [getShopAnalytics] of the Hydrogen library, an asynchronous function. *)
Variable getShopAnalytics : Storefront -> string -> Promise jsval.

Definition headerFetch (args : LoaderFunctionArgs) : Promise jsval :=
  query (storefront (context args)) HEADER_QUERY
    {| cache := CacheLong;
       variables := [("headerMenuHandle", "main-menu")] |}.

Definition footerFetch (args : LoaderFunctionArgs) : Promise jsval :=
  query (storefront (context args)) FOOTER_QUERY
    {| cache := CacheLong;
       variables := [("footerMenuHandle", "footer")] |}.

Definition loadCriticalData (args : LoaderFunctionArgs) : IO (Promise CriticalData) :=
  await (Promise_all [ headerFetch args ])
        (fun all =>
           let header := match all with h :: _ => h | [] => JUndefined end in
           ret (Resolved {| header := header |})).

Definition loadDeferredData (args : LoaderFunctionArgs) : IO DeferredData :=
  let ctx := context args in
  footer <- Promise_catch (footerFetch args)
              (fun error => _ <- console_error error ;; ret JNull) ;;
  ret {| cart := cart_get ctx;
         isLoggedIn := customerAccount_isLoggedIn ctx;
         footer := footer |}.

Definition loader (args : LoaderFunctionArgs) : IO (Promise RootData) :=
  deferredData <- loadDeferredData args ;;
  criticalData <- loadCriticalData args ;;
  await criticalData (fun criticalData =>
    let seo := rootSeo (request_url args) in
    let storefront := storefront (context args) in
    let env := env (context args) in
    ret (Resolved
           (defer
              {| data_cart := cart deferredData;
                 data_isLoggedIn := isLoggedIn deferredData;
                 data_footer := footer deferredData;
                 data_header := header criticalData;
                 seo := seo;
                 publicStoreDomain := PUBLIC_STORE_DOMAIN env;
                 shop := getShopAnalytics storefront (PUBLIC_STOREFRONT_ID env);
                 consent := {| checkoutDomain := PUBLIC_CHECKOUT_DOMAIN env;
                               storefrontAccessToken := PUBLIC_STOREFRONT_API_TOKEN env |} |}))).

End Loader.

(** ** Error boundary *)

(** What [useRouteError()] hands over, by the two tests the boundary makes. *)
Inductive RouteError : Type :=
| ErrorResponse (status : Z) (statusText : string) (data : jsval)
                                               (* [isRouteErrorResponse(error)] *)
| ErrorInstance (message : string)             (* [error instanceof Error] *)
| OtherError (v : jsval).

Definition errorInfo (error : RouteError) : Z * jsval :=
  let errorMessage := JString "Unknown error" in
  let errorStatus := 500%Z in
  match error with
  | ErrorResponse status _ data =>
      (status, coalesce (optProp data "message") data)
  | ErrorInstance message => (errorStatus, JString message)
  | OtherError _ => (errorStatus, errorMessage)
  end.

(** The rendered page.  [Expr v] is the text React prints for a string or a
    number [v] put between braces. *)
Inductive Node : Type :=
| Text (s : string)
| Num (n : Z)
| Expr (v : jsval)
| Elem (tag className : string) (children : list Node).

(** A value between braces as a child: a non-empty string or a number is
    printed, the empty string, a boolean, [null] and [undefined] print
    nothing, and for an object React throws ("Objects are not valid as a
    React child"), which is [None]. *)
Definition renderChild (v : jsval) : option (list Node) :=
  match v with
  | JString EmptyString => Some []
  | JString _ | JNumber _ => Some [Expr v]
  | JUndefined | JNull | JBool _ => Some []
  | JObject _ => None
  end.

(** [ErrorBoundary error] is the page, or [None] when rendering throws. *)
Definition ErrorBoundary (error : RouteError) : option Node :=
  let (errorStatus, errorMessage) := errorInfo error in
  match (if jsTruthy errorMessage
         then match renderChild errorMessage with
              | Some kids => Some [Elem "fieldset" "" [Elem "pre" "" kids]]
              | None => None
              end
         else renderChild errorMessage)
  with
  | Some message =>
      Some (Elem "div" "route-error"
              (Elem "h1" "" [Text "Oops"]
               :: Elem "h2" "" [Num errorStatus]
               :: message))
  | None => None
  end.

(** ** Vocabulary of the specification *)

(** A letter, as the specification reads it: one of the twenty-six, in
    either case. *)
Definition asciiLetter (c : ascii) : bool :=
  contains c "abcdefghijklmnopqrstuvwxyz" || contains c "ABCDEFGHIJKLMNOPQRSTUVWXYZ".

(** [LocalePrefixed p rest]: the pathname [p] begins with a
    two-letter, dash, two-letter segment, and [rest] is what follows the
    segment: nothing, or a piece that starts with a slash. *)
Inductive LocalePrefixed : string -> string -> Prop :=
| LocalePrefixed_intro (a b c d : ascii) (rest : string) :
    asciiLetter a = true -> asciiLetter b = true ->
    asciiLetter c = true -> asciiLetter d = true ->
    (rest = EmptyString \/ exists r, rest = String "/" r) ->
    LocalePrefixed
      (String "/" (String a (String b (String "-" (String c (String d rest))))))
      rest.

(** The pathname carries a locale prefix: the expression matches it. *)
Definition hasLocalePrefix (p : string) : bool :=
  match localeExec p with
  | Some _ => true
  | None => false
  end.

(** Reading a produced URL back: the path and the raw query of [s], a URL
    of the given origin. *)
Definition pathAndQuery (origin s : string) : option (string * string) :=
  if String.prefix origin s then
    let r := drop (String.length origin) s in
    match Urlencoded.cut "?" r with
    | Some pq => Some pq
    | None => Some (r, EmptyString)
    end
  else None.

(** The query parameters of a produced URL. *)
Definition queryParamsOf (origin s : string) : list (string * string) :=
  match pathAndQuery origin s with
  | Some (_, q) => Urlencoded.parse q
  | None => []
  end.

(** The path of a produced URL. *)
Definition pathOf (origin s : string) : string :=
  match pathAndQuery origin s with
  | Some (p, _) => p
  | None => EmptyString
  end.

(** ASCII case folding. *)
Definition lower (c : ascii) : ascii :=
  let n := nat_of_ascii c in
  if (65 <=? n) && (n <=? 90) then ascii_of_nat (n + 32) else c.

Fixpoint lowerStr (s : string) : string :=
  match s with
  | EmptyString => EmptyString
  | String c t => String (lower c) (lowerStr t)
  end.

(** A form submission whose method is not GET. *)
Definition nonGetSubmission (a : ShouldRevalidateArgs) : Prop :=
  exists m, formMethod a = Some m /\ m <> EmptyString /\ m <> "GET".

(** What the rendered boundary displays: the number in its [h2], and the
    string or number printed in the [pre] of its [fieldset], if there is
    one.  A page that failed to render displays neither. *)
Definition shownStatus (page : option Node) : option Z :=
  match page with
  | Some (Elem _ _ (_ :: Elem "h2" _ [Num z] :: _)) => Some z
  | _ => None
  end.

Definition shownMessage (page : option Node) : option jsval :=
  match page with
  | Some (Elem _ _ (_ :: _ :: Elem "fieldset" _ [Elem "pre" _ [Expr v]] :: _)) => Some v
  | _ => None
  end.

(** How [defer] hands a deferred value on: a value other than [undefined]
    stays that value, a rejection with a reason other than [undefined]
    stays that rejection, and a promise that settles with [undefined]
    becomes a rejection. *)
Inductive HandedOn : Promise jsval -> Promise jsval -> Prop :=
| HandedOn_value (v : jsval) :
    v <> JUndefined -> HandedOn (Resolved v) (Resolved v)
| HandedOn_reason (e : jsval) :
    e <> JUndefined -> HandedOn (Rejected e) (Rejected e)
| HandedOn_undefined (p : Promise jsval) (err : jsval) :
    p = Resolved JUndefined \/ p = Rejected JUndefined ->
    HandedOn p (Rejected err).

(** ** Sample inputs *)

Definition withPath (p : string) (ps : list (string * string)) : URL :=
  {| href := "https://www.honeylove.com" ++ p;
     origin := "https://www.honeylove.com";
     host := "www.honeylove.com";
     pathname := p;
     searchParams := ps |}.

(** A pathname with two locale segments in a row. *)
Definition nestedLocaleUrl : URL := withPath "/en-us/fr-fr/shop" [].

(** A three-letter language code. *)
Definition threeLetterUrl : URL := withPath "/eng-us/shop" [].

(** Keys that differ from [color] in case only. *)
Definition mixedCaseUrl : URL :=
  withPath "/EN-us/shop" [("Color", "red"); ("color", "blue"); ("COLOR", "green")].

Definition sampleEnv : Env :=
  {| PUBLIC_STORE_DOMAIN := "honeylove.myshopify.com";
     PUBLIC_STOREFRONT_ID := "1000";
     PUBLIC_CHECKOUT_DOMAIN := "checkout.honeylove.com";
     PUBLIC_STOREFRONT_API_TOKEN := "token" |}.

Definition sampleShop (_ : Storefront) (id : string) : Promise jsval :=
  Resolved (JObject [("shopId", JString id)]).

(** Loader arguments whose four fetches settle as given. *)
Definition sampleArgs (headerP footerP cartP loginP : Promise jsval) : LoaderFunctionArgs :=
  {| request_url := exampleUrl;
     context :=
       {| storefront :=
            {| query := fun q _ => match q with
                                   | HEADER_QUERY => headerP
                                   | FOOTER_QUERY => footerP
                                   end |};
          customerAccount_isLoggedIn := loginP;
          cart_get := cartP;
          env := sampleEnv |} |}.

Definition sampleMenu (name : string) : jsval :=
  JObject [("menu", JObject [("id", JString name)])].

(** ** Observations on produced strings *)

(** The characters the serialiser can write: the unreserved bytes and
    [%], [+], [=], [&]. *)
Definition queryChar (c : ascii) : bool :=
  Urlencoded.unreserved c || contains c "%+=&".

Fixpoint allChars (P : ascii -> bool) (s : string) : bool :=
  match s with
  | EmptyString => true
  | String c t => P c && allChars P t
  end.

(** Number of occurrences of a character. *)
Fixpoint count (c : ascii) (s : string) : nat :=
  match s with
  | EmptyString => 0
  | String x t => (if Ascii.eqb x c then 1 else 0) + count c t
  end.

(** The URL object of a string [s] the canonicaliser produced for [u]: same
    origin and host, path and parameters read back from [s]. *)
Definition reread (u : URL) (s : string) : URL :=
  {| href := s;
     origin := origin u;
     host := host u;
     pathname := pathOf (origin u) s;
     searchParams := queryParamsOf (origin u) s |}.

(** * Properties *)

(** ** Strings *)

(** Case analysis over the 256 bytes. *)
Ltac each_byte c := destruct c as [[] [] [] [] [] [] [] []].

Lemma append_empty_r (s : string) : s ++ "" = s.
Proof. induction s as [|c t IH]; simpl; [reflexivity | now rewrite IH]. Qed.

Lemma append_assoc (a b c : string) : (a ++ b) ++ c = a ++ b ++ c.
Proof. induction a as [|x t IH]; simpl; [reflexivity | now rewrite IH]. Qed.

Lemma contains_append (c : ascii) (a b : string) :
  contains c (a ++ b) = contains c a || contains c b.
Proof.
  induction a as [|x t IH]; simpl; [reflexivity|].
  now rewrite IH, orb_assoc.
Qed.

Lemma prefix_append (a b : string) : String.prefix a (a ++ b) = true.
Proof.
  induction a as [|x t IH]; simpl.
  - now destruct b.
  - destruct (ascii_dec x x) as [_|N]; [exact IH | now elim N].
Qed.

Lemma drop_append (a b : string) : drop (String.length a) (a ++ b) = b.
Proof. induction a as [|x t IH]; simpl; [reflexivity | exact IH]. Qed.

Lemma String_replace_prefix (pat rep s : string) :
  String.prefix pat s = true ->
  String_replace pat rep s = rep ++ drop (String.length pat) s.
Proof. intros H; destruct s; cbn [String_replace]; now rewrite H. Qed.

Lemma truthy_false (s : string) : truthy s = false <-> s = "".
Proof. destruct s; simpl; split; congruence. Qed.

(** ** The serialiser and its parser *)

Module UrlencodedFacts.
Import Urlencoded.

Lemma encodeByte_no_amp (c : ascii) : contains "&" (encodeByte c) = false.
Proof. each_byte c; reflexivity. Qed.

Lemma encodeByte_no_eq (c : ascii) : contains "=" (encodeByte c) = false.
Proof. each_byte c; reflexivity. Qed.

Lemma encodeByte_no_qmark (c : ascii) : contains "?" (encodeByte c) = false.
Proof. each_byte c; reflexivity. Qed.

Lemma encode_avoids (x : ascii) :
  (forall c, contains x (encodeByte c) = false) ->
  forall s, contains x (encode s) = false.
Proof.
  intros H s; induction s as [|c t IH]; simpl; [reflexivity|].
  now rewrite contains_append, H, IH.
Qed.

Lemma plusToSpace_append (a b : string) :
  plusToSpace (a ++ b) = plusToSpace a ++ plusToSpace b.
Proof. induction a as [|x t IH]; simpl; [reflexivity | now rewrite IH]. Qed.

(** Decoding one encoded byte gives the byte back, whatever follows. *)
Lemma decode_encodeByte (c : ascii) (rest : string) :
  percentDecode (plusToSpace (encodeByte c) ++ rest) = String c (percentDecode rest).
Proof. each_byte c; reflexivity. Qed.

Lemma decode_encode (s : string) : decode (encode s) = s.
Proof.
  unfold decode; induction s as [|c t IH]; simpl; [reflexivity|].
  now rewrite plusToSpace_append, decode_encodeByte, IH.
Qed.

Lemma cut_append (sep : ascii) (a b : string) :
  contains sep a = false ->
  cut sep (a ++ String sep b) = Some (a, b).
Proof.
  induction a as [|x t IH]; simpl; intros H.
  - now rewrite Ascii.eqb_refl.
  - apply orb_false_iff in H as [Hx Ht]. now rewrite Hx, IH.
Qed.

Lemma cut_none (sep : ascii) (a : string) :
  contains sep a = false -> cut sep a = None.
Proof.
  induction a as [|x t IH]; simpl; intros H; [reflexivity|].
  apply orb_false_iff in H as [Hx Ht]. now rewrite Hx, IH.
Qed.

Lemma splitOn_single (sep : ascii) (a : string) :
  contains sep a = false -> splitOn sep a = [a].
Proof.
  induction a as [|x t IH]; simpl; intros H; [reflexivity|].
  apply orb_false_iff in H as [Hx Ht]. now rewrite Hx, IH.
Qed.

Lemma splitOn_append (sep : ascii) (a b : string) :
  contains sep a = false ->
  splitOn sep (a ++ String sep b) = a :: splitOn sep b.
Proof.
  induction a as [|x t IH]; simpl; intros H.
  - now rewrite Ascii.eqb_refl.
  - apply orb_false_iff in H as [Hx Ht]. now rewrite Hx, IH.
Qed.

Lemma encodePair_no_amp (p : string * string) : contains "&" (encodePair p) = false.
Proof.
  unfold encodePair. rewrite !contains_append.
  now rewrite !(encode_avoids "&" encodeByte_no_amp).
Qed.

Lemma encodePair_no_qmark (p : string * string) : contains "?" (encodePair p) = false.
Proof.
  unfold encodePair. rewrite !contains_append.
  now rewrite !(encode_avoids "?" encodeByte_no_qmark).
Qed.

Lemma parseSequence_encodePair (p : string * string) :
  parseSequence (encodePair p) = [p].
Proof.
  destruct p as [k v]. unfold parseSequence, encodePair; simpl fst; simpl snd.
  change (encode k ++ "=" ++ encode v) with (encode k ++ String "=" (encode v)).
  rewrite (cut_append "=" _ _ (encode_avoids "=" encodeByte_no_eq k)).
  rewrite !decode_encode.
  destruct (encode k); reflexivity.
Qed.

(** Parsing what the serialiser wrote gives the tuples back, in order. *)
Lemma parse_serialize (l : list (string * string)) : parse (serialize l) = l.
Proof.
  unfold parse. induction l as [|p r IH]; [reflexivity|].
  destruct r as [|q r'].
  - simpl serialize. rewrite (splitOn_single _ _ (encodePair_no_amp p)).
    simpl. now rewrite parseSequence_encodePair.
  - change (serialize (p :: q :: r'))
      with (encodePair p ++ String "&" (serialize (q :: r'))).
    rewrite (splitOn_append _ _ _ (encodePair_no_amp p)).
    cbn [flat_map]. rewrite parseSequence_encodePair, IH. reflexivity.
Qed.

Lemma serialize_no_qmark (l : list (string * string)) :
  contains "?" (serialize l) = false.
Proof.
  induction l as [|p r IH]; [reflexivity|].
  destruct r as [|q r'].
  - apply encodePair_no_qmark.
  - change (serialize (p :: q :: r'))
      with (encodePair p ++ String "&" (serialize (q :: r'))).
    rewrite contains_append, encodePair_no_qmark. simpl. exact IH.
Qed.

Lemma serialize_empty (l : list (string * string)) :
  serialize l = "" <-> l = [].
Proof.
  split; [|now intros ->].
  intros H. rewrite <- (parse_serialize l), H. reflexivity.
Qed.

End UrlencodedFacts.

(** ** Locale stripping *)

Lemma prefix_take (n : nat) (s : string) : String.prefix (take n s) s = true.
Proof.
  revert s; induction n as [|n IH]; intros [|c t]; simpl; try reflexivity.
  destruct (ascii_dec c c) as [_|N]; [apply IH | now elim N].
Qed.

(** The character class of the expression is the specification's "letter". *)
Lemma letter_i_asciiLetter (c : ascii) : letter_i c = asciiLetter c.
Proof. each_byte c; reflexivity. Qed.

Lemma lit_cons (c : ascii) (t : string) : lit c (String c t) = Some t.
Proof. simpl. now rewrite Ascii.eqb_refl. Qed.

Lemma cls_cons (x : ascii) (t : string) :
  asciiLetter x = true -> cls (String x t) = Some t.
Proof. intros H. simpl. now rewrite letter_i_asciiLetter, H. Qed.

Lemma lit_some (c : ascii) (s t : string) : lit c s = Some t -> s = String c t.
Proof.
  destruct s as [|x r]; simpl; [discriminate|].
  destruct (Ascii.eqb_spec x c); [|discriminate].
  intros [= ->]. now subst.
Qed.

Lemma cls_some (s t : string) :
  cls s = Some t -> exists x, asciiLetter x = true /\ s = String x t.
Proof.
  destruct s as [|x r]; simpl; [discriminate|].
  destruct (letter_i x) eqn:E; [|discriminate].
  intros [= ->]. exists x. now rewrite <- letter_i_asciiLetter.
Qed.

Lemma andThen_some (m : option string) (k : string -> option string) (r : string) :
  andThen m k = Some r -> exists s, m = Some s /\ k s = Some r.
Proof. destruct m as [s|]; simpl; [|discriminate]. intros H. now exists s. Qed.

Lemma slashOrEnd_some (s t : string) :
  slashOrEnd s = Some t -> (s = "" /\ t = "") \/ s = String "/" t.
Proof.
  unfold slashOrEnd. destruct (lit "/" s) as [r|] eqn:E.
  - intros [= ->]. right. now apply lit_some.
  - destruct s; [|discriminate]. intros [= <-]. now left.
Qed.

(** What [exec] returns on a pathname that begins with a locale segment:
    the segment, with the slash that follows it if there is one. *)
Lemma localeExec_prefixed (p rest : string) :
  LocalePrefixed p rest ->
  localeExec p = Some (take (if truthy rest then 7 else 6) p).
Proof.
  intros H. destruct H as [a b c d rest Ha Hb Hc Hd Hrest].
  unfold localeExec.
  rewrite lit_cons. cbn [andThen].
  rewrite (cls_cons a) by assumption. cbn [andThen].
  rewrite (cls_cons b) by assumption. cbn [andThen].
  rewrite lit_cons. cbn [andThen].
  rewrite (cls_cons c) by assumption. cbn [andThen].
  rewrite (cls_cons d) by assumption. cbn [andThen].
  destruct Hrest as [-> | [r ->]].
  - reflexivity.
  - unfold slashOrEnd. rewrite lit_cons. cbn [String.length truthy].
    replace (S (S (S (S (S (S (S (String.length r))))))) - String.length r) with 7 by lia.
    reflexivity.
Qed.

(** [exec] matches only pathnames that begin with a locale segment. *)
Lemma localeExec_some (p m : string) :
  localeExec p = Some m -> exists rest, LocalePrefixed p rest.
Proof.
  unfold localeExec.
  destruct (andThen _ slashOrEnd) as [r|] eqn:E; [intros _|discriminate].
  apply andThen_some in E as (s6 & E & H6).
  apply andThen_some in E as (s5 & E & H5).
  apply andThen_some in E as (s4 & E & H4).
  apply andThen_some in E as (s3 & E & H3).
  apply andThen_some in E as (s2 & E & H2).
  apply andThen_some in E as (s1 & E & H1).
  apply lit_some in E. apply lit_some in H3.
  apply cls_some in H1 as (a & Ha & ->).
  apply cls_some in H2 as (b & Hb & ->).
  apply cls_some in H4 as (c & Hc & ->).
  apply cls_some in H5 as (d & Hd & ->).
  subst p s3. exists s6. constructor; try assumption.
  apply slashOrEnd_some in H6 as [[-> _] | ->]; [now left | right; now exists r].
Qed.

Lemma hasLocalePrefix_iff (p : string) :
  hasLocalePrefix p = true <-> exists rest, LocalePrefixed p rest.
Proof.
  unfold hasLocalePrefix. split.
  - destruct (localeExec p) as [m|] eqn:E; [|discriminate].
    intros _. now apply localeExec_some with m.
  - intros [rest H]. now rewrite (localeExec_prefixed _ _ H).
Qed.

Lemma LocalePrefixed_fun (p r1 r2 : string) :
  LocalePrefixed p r1 -> LocalePrefixed p r2 -> r1 = r2.
Proof.
  intros H1 H2. destruct H1. inversion H2. reflexivity.
Qed.

Lemma clean_prefixed (u : URL) (rest : string) :
  LocalePrefixed (pathname u) rest ->
  cleanLocaleFromPathname u = if truthy rest then rest else "/".
Proof.
  intros H. unfold cleanLocaleFromPathname.
  rewrite (localeExec_prefixed _ _ H).
  rewrite String_replace_prefix by apply prefix_take.
  destruct H as [a b c d rest Ha Hb Hc Hd [-> | [r ->]]]; reflexivity.
Qed.

Lemma clean_unprefixed (u : URL) :
  (forall rest, ~ LocalePrefixed (pathname u) rest) ->
  cleanLocaleFromPathname u = pathname u.
Proof.
  intros H. unfold cleanLocaleFromPathname.
  destruct (localeExec (pathname u)) as [m|] eqn:E; [|reflexivity].
  apply localeExec_some in E as [rest Hr]. now elim (H rest).
Qed.

(** ** Canonical URL and hreflang list *)

Lemma includes_whitelist (k : string) :
  includes whitelistedParams k = String.eqb k "color".
Proof. unfold includes, whitelistedParams; simpl. apply orb_false_r. Qed.

Lemma keptParams_filter (u : URL) :
  keptParams u = filter (fun p => String.eqb (fst p) "color") (searchParams u).
Proof.
  unfold keptParams. apply filter_ext. intros p. apply includes_whitelist.
Qed.

Lemma parse_cleanParams (u : URL) : Urlencoded.parse (cleanParams u) = keptParams u.
Proof. apply UrlencodedFacts.parse_serialize. Qed.

Lemma contains_drop (c : ascii) (n : nat) (s : string) :
  contains c s = false -> contains c (drop n s) = false.
Proof.
  revert s; induction n as [|n IH]; intros [|x t]; simpl; try easy.
  intros H. apply orb_false_iff in H as [_ H]. now apply IH.
Qed.

(** The cleaned pathname is the pathname, or a slash put before one of its
    suffixes. *)
Lemma clean_shape (u : URL) :
  cleanLocaleFromPathname u = pathname u \/
  exists n, cleanLocaleFromPathname u = "/" ++ drop n (pathname u).
Proof.
  destruct (hasLocalePrefix (pathname u)) eqn:E.
  - apply hasLocalePrefix_iff in E as [rest H]. right.
    unfold cleanLocaleFromPathname. rewrite (localeExec_prefixed _ _ H).
    rewrite String_replace_prefix by apply prefix_take. eauto.
  - left. apply clean_unprefixed. intros rest H.
    assert (hasLocalePrefix (pathname u) = true) by (apply hasLocalePrefix_iff; eauto).
    congruence.
Qed.

Lemma clean_no_qmark (u : URL) :
  wellFormed u -> contains "?" (cleanLocaleFromPathname u) = false.
Proof.
  intros [_ Hp]. destruct (clean_shape u) as [-> | [n ->]]; [exact Hp|].
  simpl. now apply contains_drop.
Qed.

(** The url of the hreflang entry is the canonical URL. *)
Lemma hreflang_url (u : URL) :
  origin u ++ cleanLocaleFromPathname u
    ++ (if truthy (cleanParams u) then "?" ++ cleanParams u else "")
  = createCanonicalUrl u.
Proof.
  unfold createCanonicalUrl. destruct (truthy (cleanParams u)); [reflexivity|].
  now rewrite append_empty_r.
Qed.

(** Reading the canonical URL back gives the cleaned pathname and the
    filtered parameter string. *)
Lemma pathAndQuery_canonical (u : URL) :
  wellFormed u ->
  pathAndQuery (origin u) (createCanonicalUrl u)
  = Some (cleanLocaleFromPathname u, cleanParams u).
Proof.
  intros W. pose proof (clean_no_qmark u W) as Hc.
  unfold pathAndQuery, createCanonicalUrl.
  destruct (truthy (cleanParams u)) eqn:T.
  - rewrite prefix_append, drop_append.
    change (cleanLocaleFromPathname u ++ "?" ++ cleanParams u)
      with (cleanLocaleFromPathname u ++ String "?" (cleanParams u)).
    now rewrite UrlencodedFacts.cut_append.
  - rewrite prefix_append, drop_append, UrlencodedFacts.cut_none by assumption.
    apply truthy_false in T. now rewrite T.
Qed.

Lemma keptParams_keys (u : URL) (k v : string) :
  In (k, v) (keptParams u) -> k = "color".
Proof.
  rewrite keptParams_filter. intros H. apply filter_In in H as [_ H].
  now apply String.eqb_eq in H.
Qed.

(** After one stripping a locale prefix is left exactly when the pathname
    began with two locale segments in a row. *)
Lemma clean_still_prefixed (u : URL) :
  hasLocalePrefix (cleanLocaleFromPathname u) = true <->
  exists r1 r2, LocalePrefixed (pathname u) r1 /\ LocalePrefixed r1 r2.
Proof.
  split.
  - intros H. destruct (hasLocalePrefix (pathname u)) eqn:E.
    + apply hasLocalePrefix_iff in E as [r1 H1].
      rewrite (clean_prefixed _ _ H1) in H.
      destruct (truthy r1); [|discriminate].
      apply hasLocalePrefix_iff in H as [r2 H2]. eauto.
    + rewrite clean_unprefixed in H; [congruence|].
      intros rest Hr.
      assert (hasLocalePrefix (pathname u) = true) by (apply hasLocalePrefix_iff; eauto).
      congruence.
  - intros (r1 & r2 & H1 & H2). rewrite (clean_prefixed _ _ H1).
    assert (T : truthy r1 = true) by (destruct H2; reflexivity).
    rewrite T. apply hasLocalePrefix_iff. eauto.
Qed.

(** C1, as the code has it: for every well-formed input URL, the canonical
    URL and every hreflang URL carry exactly the [color] parameters of the
    input, in their order, and so no parameter with another key; their path
    is the input pathname without its leading locale segment (what follows
    the segment, or [/] when nothing follows), and the input pathname itself
    when it has no such segment; that path still begins with a locale
    segment exactly when the input pathname began with two locale segments
    in a row. *)
Theorem canonical_urls_whitelisted_and_stripped_once (u : URL) (s : string) :
  wellFormed u ->
  s = createCanonicalUrl u \/ In s (map url (createHreflangs u)) ->
  queryParamsOf (origin u) s
  = filter (fun p => String.eqb (fst p) "color") (searchParams u) /\
  (forall k v, In (k, v) (queryParamsOf (origin u) s) -> k = "color") /\
  (forall rest, LocalePrefixed (pathname u) rest ->
     pathOf (origin u) s = if truthy rest then rest else "/") /\
  ((forall rest, ~ LocalePrefixed (pathname u) rest) ->
     pathOf (origin u) s = pathname u) /\
  (hasLocalePrefix (pathOf (origin u) s) = true <->
   exists r1 r2, LocalePrefixed (pathname u) r1 /\ LocalePrefixed r1 r2).
Proof.
  intros W Hs.
  assert (E : s = createCanonicalUrl u).
  { destruct Hs as [-> | [<- | []]]; [reflexivity|]. apply hreflang_url. }
  subst s. unfold queryParamsOf, pathOf.
  rewrite (pathAndQuery_canonical u W), parse_cleanParams.
  split; [apply keptParams_filter|].
  split; [intros k v H; now apply keptParams_keys in H|].
  split; [apply clean_prefixed|].
  split; [apply clean_unprefixed|].
  apply clean_still_prefixed.
Qed.

Lemma canonical_urls_whitelisted_and_stripped_once_witness :
  queryParamsOf (origin exampleUrl) "https://www.honeylove.com/shop?color=red"
  = [("color", "red")] /\
  pathOf (origin exampleUrl) "https://www.honeylove.com/shop?color=red" = "/shop" /\
  pathOf (origin threeLetterUrl) "https://www.honeylove.com/eng-us/shop" = "/eng-us/shop".
Proof.
  pose proof (canonical_urls_whitelisted_and_stripped_once exampleUrl
                "https://www.honeylove.com/shop?color=red"
                (conj eq_refl eq_refl) (or_introl eq_refl)) as (Q & _ & P & _).
  pose proof (canonical_urls_whitelisted_and_stripped_once threeLetterUrl
                "https://www.honeylove.com/eng-us/shop"
                (conj eq_refl eq_refl) (or_intror (or_introl eq_refl))) as (_ & _ & _ & N & _).
  split; [exact Q|]. split.
  - apply (P "/shop").
    apply (LocalePrefixed_intro "e" "n" "u" "s" "/shop"); try reflexivity.
    right. now exists "shop".
  - apply N. intros rest H. inversion H.
Defined.

(** C1 as stated fails: the canonical URL and the hreflang URL of
    [/en-us/fr-fr/shop] still begin with a locale segment. *)
Lemma nested_locale_survives :
  wellFormed nestedLocaleUrl /\
  createCanonicalUrl nestedLocaleUrl = "https://www.honeylove.com/fr-fr/shop" /\
  map url (createHreflangs nestedLocaleUrl) = ["https://www.honeylove.com/fr-fr/shop"] /\
  pathOf (origin nestedLocaleUrl) (createCanonicalUrl nestedLocaleUrl) = "/fr-fr/shop" /\
  hasLocalePrefix (pathOf (origin nestedLocaleUrl) (createCanonicalUrl nestedLocaleUrl)) = true.
Proof. repeat split. Qed.

(** C4: a pathname that begins with a two-letter, dash, two-letter segment
    (letters of either case) is replaced by what follows the segment, or by
    [/] when nothing follows; any other pathname is returned unchanged. *)
Theorem locale_stripping (u : URL) :
  (forall rest, LocalePrefixed (pathname u) rest ->
     cleanLocaleFromPathname u = if truthy rest then rest else "/") /\
  ((forall rest, ~ LocalePrefixed (pathname u) rest) ->
     cleanLocaleFromPathname u = pathname u).
Proof. split; [apply clean_prefixed | apply clean_unprefixed]. Qed.

Lemma locale_stripping_witness :
  cleanLocaleFromPathname exampleUrl = "/shop" /\
  cleanLocaleFromPathname threeLetterUrl = "/eng-us/shop".
Proof.
  split.
  - apply (proj1 (locale_stripping exampleUrl) "/shop").
    apply (LocalePrefixed_intro "e" "n" "u" "s" "/shop"); try reflexivity.
    right. now exists "shop".
  - apply (proj2 (locale_stripping threeLetterUrl)).
    intros rest H. inversion H.
Defined.

Example strip_bare_locale : cleanLocaleFromPathname (withPath "/EN-us" []) = "/".
Proof. reflexivity. Qed.

Example keep_locale_without_boundary :
  cleanLocaleFromPathname (withPath "/en-usa" []) = "/en-usa".
Proof. reflexivity. Qed.

Example canonical_example :
  createCanonicalUrl exampleUrl = "https://www.honeylove.com/shop?color=red".
Proof. reflexivity. Qed.

(** C5: the filtered parameter string, read back, holds exactly the
    parameters of the URL whose key is [color], in their order; it is empty
    when no parameter has that key; and the canonical URL of a well-formed
    URL contains a [?] exactly when the filtered string is not empty. *)
Theorem param_filter_and_question_mark (u : URL) :
  Urlencoded.parse (cleanParams u)
  = filter (fun p => String.eqb (fst p) "color") (searchParams u) /\
  ((forall p, In p (searchParams u) -> fst p <> "color") -> cleanParams u = "") /\
  (wellFormed u ->
   (contains "?" (createCanonicalUrl u) = true <-> cleanParams u <> "")).
Proof.
  split; [|split].
  - rewrite parse_cleanParams. apply keptParams_filter.
  - intros H. apply UrlencodedFacts.serialize_empty.
    rewrite keptParams_filter.
    induction (searchParams u) as [|p r IH]; [reflexivity|]. simpl.
    destruct (String.eqb_spec (fst p) "color") as [E|_].
    + now elim (H p (or_introl eq_refl)).
    + apply IH. intros q Hq. apply H. now right.
  - intros W. pose proof (clean_no_qmark u W) as Hc. destruct W as [Ho _].
    unfold createCanonicalUrl.
    destruct (truthy (cleanParams u)) eqn:T.
    + rewrite !contains_append. simpl. rewrite !orb_true_r. split; [|reflexivity].
      intros _ E. rewrite E in T. discriminate.
    + rewrite contains_append, Ho, Hc. apply truthy_false in T.
      split; [discriminate | congruence].
Qed.

Lemma param_filter_and_question_mark_witness :
  cleanParams (withPath "/shop" [("ref", "abc"); ("size", "m")]) = "" /\
  contains "?" (createCanonicalUrl exampleUrl) = true.
Proof.
  split.
  - apply (proj1 (proj2 (param_filter_and_question_mark
                           (withPath "/shop" [("ref", "abc"); ("size", "m")])))).
    intros p [<- | [<- | []]]; discriminate.
  - apply (proj2 (proj2 (param_filter_and_question_mark exampleUrl))
             (conj eq_refl eq_refl)).
    discriminate.
Defined.

Example filter_keeps_order :
  cleanParams (withPath "/shop" [("color", "red"); ("ref", "a b"); ("color", "deep blue&co")])
  = "color=red&color=deep+blue%26co".
Proof. reflexivity. Qed.

(** C7: the hreflang list has one entry, for [en-us], marked default, whose
    url is the canonical URL of the same input. *)
Theorem hreflangs_single_default_canonical (u : URL) :
  createHreflangs u
  = [ {| language := "en-us"; url := createCanonicalUrl u; default := true |} ].
Proof. unfold createHreflangs. cbv zeta. now rewrite hreflang_url. Qed.

Lemma lower_fixes_delims (c : ascii) :
  Ascii.eqb (lower c) "/" = Ascii.eqb c "/" /\
  Ascii.eqb (lower c) "-" = Ascii.eqb c "-" /\
  letter_i (lower c) = letter_i c.
Proof. each_byte c; repeat split. Qed.

Lemma lit_lower (c : ascii) (s : string) :
  c = "/"%char \/ c = "-"%char ->
  lit c (lowerStr s) = option_map lowerStr (lit c s).
Proof.
  intros Hc. destruct s as [|x t]; [reflexivity|]. cbn [lit lowerStr].
  destruct (lower_fixes_delims x) as (H1 & H2 & _).
  destruct Hc as [-> | ->]; [rewrite H1 | rewrite H2];
    match goal with |- context [Ascii.eqb x ?c] => now destruct (Ascii.eqb x c) end.
Qed.

Lemma cls_lower (s : string) : cls (lowerStr s) = option_map lowerStr (cls s).
Proof.
  destruct s as [|x t]; [reflexivity|]. cbn [cls lowerStr].
  destruct (lower_fixes_delims x) as (_ & _ & ->). now destruct (letter_i x).
Qed.

Lemma slashOrEnd_lower (s : string) :
  slashOrEnd (lowerStr s) = option_map lowerStr (slashOrEnd s).
Proof.
  unfold slashOrEnd. rewrite lit_lower by now left.
  destruct (lit "/" s) as [t|]; [reflexivity|]. now destruct s.
Qed.

Lemma andThen_lower (m : option string) (k : string -> option string) :
  (forall s, k (lowerStr s) = option_map lowerStr (k s)) ->
  andThen (option_map lowerStr m) k = option_map lowerStr (andThen m k).
Proof. intros H. destruct m as [s|]; simpl; [apply H | reflexivity]. Qed.

(** Matching of the locale prefix does not look at the case of letters. *)
Lemma hasLocalePrefix_lower (p : string) :
  hasLocalePrefix (lowerStr p) = hasLocalePrefix p.
Proof.
  unfold hasLocalePrefix, localeExec.
  rewrite lit_lower by now left.
  rewrite !andThen_lower;
    try (intros; first [apply cls_lower | apply slashOrEnd_lower
                        | apply lit_lower; now right]).
  now destruct (andThen _ slashOrEnd).
Qed.

(** C10: a parameter whose key differs from [color] in letter case only is
    dropped by the filter, whereas matching of the locale prefix is the same
    on a pathname and on its lower-case form. *)
Theorem whitelist_case_sensitive_locale_not (u : URL) :
  (forall k v, lowerStr k = "color" -> k <> "color" ->
     ~ In (k, v) (Urlencoded.parse (cleanParams u))) /\
  hasLocalePrefix (lowerStr (pathname u)) = hasLocalePrefix (pathname u).
Proof.
  split.
  - intros k v _ Hk H. rewrite parse_cleanParams in H.
    now apply keptParams_keys in H.
  - apply hasLocalePrefix_lower.
Qed.

Lemma whitelist_case_sensitive_locale_not_witness :
  ~ In ("Color", "red") (Urlencoded.parse (cleanParams mixedCaseUrl)) /\
  ~ In ("COLOR", "green") (Urlencoded.parse (cleanParams mixedCaseUrl)).
Proof.
  split.
  - apply (proj1 (whitelist_case_sensitive_locale_not mixedCaseUrl) "Color" "red");
      [reflexivity | discriminate].
  - apply (proj1 (whitelist_case_sensitive_locale_not mixedCaseUrl) "COLOR" "green");
      [reflexivity | discriminate].
Defined.

Example mixed_case_canonical :
  createCanonicalUrl mixedCaseUrl = "https://www.honeylove.com/shop?color=blue".
Proof. reflexivity. Qed.

(** ** SEO descriptor *)

(** C6: the [noFollow] flag of the descriptor is true exactly when the host
    of the URL is [dev.honeylove.com] or [staging.honeylove.com]. *)
Theorem noFollow_iff_dev_or_staging (u : URL) :
  noFollow (robots (rootSeo u)) = true <->
  host u = "dev.honeylove.com" \/ host u = "staging.honeylove.com".
Proof.
  unfold rootSeo; cbn [robots noFollow].
  rewrite orb_true_iff, !String.eqb_eq. reflexivity.
Qed.

Example noFollow_subdomain :
  noFollow (robots (rootSeo
    {| href := "https://www.dev.honeylove.com/";
       origin := "https://www.dev.honeylove.com";
       host := "www.dev.honeylove.com";
       pathname := "/";
       searchParams := [] |})) = false.
Proof. reflexivity. Qed.

Example noFollow_lookalike :
  noFollow (robots (rootSeo
    {| href := "https://dev.honeylove.com.example.org/";
       origin := "https://dev.honeylove.com.example.org";
       host := "dev.honeylove.com.example.org";
       pathname := "/";
       searchParams := [] |})) = false.
Proof. reflexivity. Qed.

Example noFollow_with_port :
  noFollow (robots (rootSeo
    {| href := "https://staging.honeylove.com:8443/";
       origin := "https://staging.honeylove.com:8443";
       host := "staging.honeylove.com:8443";
       pathname := "/";
       searchParams := [] |})) = false.
Proof. reflexivity. Qed.

(** ** Revalidation *)

(** C8: [shouldRevalidate] answers true exactly when the navigation is a
    form submission with a method other than GET, or the next URL is, as a
    string, the current URL; otherwise it answers false. *)
Theorem shouldRevalidate_iff (a : ShouldRevalidateArgs) :
  (shouldRevalidate a = true <->
   nonGetSubmission a \/ href (currentUrl a) = href (nextUrl a)) /\
  (shouldRevalidate a = false <->
   ~ (nonGetSubmission a \/ href (currentUrl a) = href (nextUrl a))).
Proof.
  assert (H : shouldRevalidate a = true <->
              nonGetSubmission a \/ href (currentUrl a) = href (nextUrl a)).
  { unfold shouldRevalidate, nonGetSubmission.
    destruct (formMethod a) as [m|].
    - destruct (String.eqb_spec m "GET") as [->|Hm]; simpl.
      + destruct (String.eqb_spec (href (currentUrl a)) (href (nextUrl a))) as [E|N];
          split; auto; try discriminate.
        intros [(m & [= <-] & _ & Hg) | E]; [now elim Hg | contradiction].
      + destruct m as [|c t]; simpl.
        * destruct (String.eqb_spec (href (currentUrl a)) (href (nextUrl a))) as [E|N];
            split; auto; try discriminate.
          intros [(m & [= <-] & He & _) | E]; [now elim He | contradiction].
        * split; [intros _; left | reflexivity].
          exists (String c t). repeat split; [discriminate | assumption].
    - destruct (String.eqb_spec (href (currentUrl a)) (href (nextUrl a))) as [E|N];
        split; auto; try discriminate.
      intros [(m & [=] & _) | E]. contradiction. }
  split; [exact H|].
  rewrite <- H. destruct (shouldRevalidate a); split; congruence.
Qed.

Example revalidate_after_post :
  shouldRevalidate {| formMethod := Some "POST";
                      currentUrl := withPath "/cart" [];
                      nextUrl := withPath "/shop" [] |} = true.
Proof. reflexivity. Qed.

Example reuse_on_plain_navigation :
  shouldRevalidate {| formMethod := None;
                      currentUrl := withPath "/cart" [];
                      nextUrl := withPath "/shop" [] |} = false.
Proof. reflexivity. Qed.

(** ** Page data loader *)

Section LoaderFacts.

Variable getShopAnalytics : Storefront -> string -> Promise jsval.

Lemma loadDeferredData_run (args : LoaderFunctionArgs) (c : Console) :
  loadDeferredData args c
  = ( {| cart := cart_get (context args);
         isLoggedIn := customerAccount_isLoggedIn (context args);
         footer := match footerFetch args with
                   | Resolved v => Resolved v
                   | Rejected _ => Resolved JNull
                   end |},
      match footerFetch args with
      | Resolved _ => c
      | Rejected e => (c ++ [e])%list
      end ).
Proof.
  unfold loadDeferredData, Promise_catch, bind, ret, console_error.
  now destruct (footerFetch args).
Qed.

Lemma loadCriticalData_run (args : LoaderFunctionArgs) (c : Console) :
  loadCriticalData args c
  = ( match headerFetch args with
      | Resolved h => Resolved {| header := h |}
      | Rejected e => Rejected e
      end, c ).
Proof.
  unfold loadCriticalData, await, ret. simpl.
  now destruct (headerFetch args).
Qed.

(** The console after the loader: the footer's rejection reason is the only
    thing it ever receives. *)
Lemma loader_console (args : LoaderFunctionArgs) (c : Console) :
  snd (loader getShopAnalytics args c)
  = match footerFetch args with
    | Resolved _ => c
    | Rejected e => (c ++ [e])%list
    end.
Proof.
  unfold loader, bind. rewrite loadDeferredData_run, loadCriticalData_run.
  unfold await, ret. now destruct (headerFetch args).
Qed.

Lemma loader_rejected (args : LoaderFunctionArgs) (c : Console) (e : jsval) :
  headerFetch args = Rejected e ->
  fst (loader getShopAnalytics args c) = Rejected e.
Proof.
  intros H. unfold loader, bind. rewrite loadDeferredData_run, loadCriticalData_run.
  now rewrite H.
Qed.

Lemma trackPromise_handed (key : string) (p : Promise jsval) :
  HandedOn p (trackPromise key p).
Proof.
  destruct p as [[]|[]]; simpl;
    first [ now apply HandedOn_undefined; auto
          | apply HandedOn_value; discriminate
          | apply HandedOn_reason; discriminate ].
Qed.

Lemma loader_resolved (args : LoaderFunctionArgs) (c : Console) (h : jsval) :
  headerFetch args = Resolved h ->
  exists d,
    fst (loader getShopAnalytics args c) = Resolved d /\
    data_header d = h /\
    data_cart d = trackPromise "cart" (cart_get (context args)) /\
    data_isLoggedIn d
    = trackPromise "isLoggedIn" (customerAccount_isLoggedIn (context args)) /\
    data_footer d = trackPromise "footer"
                      match footerFetch args with
                      | Resolved v => Resolved v
                      | Rejected _ => Resolved JNull
                      end /\
    shop d = trackPromise "shop"
               (getShopAnalytics (storefront (context args))
                  (PUBLIC_STOREFRONT_ID (env (context args)))).
Proof.
  intros H. unfold loader, bind. rewrite loadDeferredData_run, loadCriticalData_run.
  rewrite H. unfold await, ret. cbn [fst]. eexists. split; [reflexivity|].
  now repeat split.
Qed.

(** C2: when the header fetch rejects, the loader rejects with the same
    reason; when the footer fetch rejects and the header fetch resolves, the
    loader resolves, the reason has been passed to [console.error], and the
    footer field resolves to [null]. *)
Theorem header_failure_fatal_footer_failure_absorbed
  (args : LoaderFunctionArgs) (c : Console) :
  (forall e, headerFetch args = Rejected e ->
     fst (loader getShopAnalytics args c) = Rejected e) /\
  (forall e h, footerFetch args = Rejected e -> headerFetch args = Resolved h ->
     exists d,
       fst (loader getShopAnalytics args c) = Resolved d /\
       data_footer d = Resolved JNull /\
       snd (loader getShopAnalytics args c) = (c ++ [e])%list).
Proof.
  split.
  - intros e. apply loader_rejected.
  - intros e h Hf Hh.
    destruct (loader_resolved args c h Hh) as (d & Hd & _ & _ & _ & Hfoot & _).
    exists d. rewrite loader_console, Hf in *. auto.
Qed.

(** C3, as the code has it: whenever the header fetch resolves the loader
    resolves, whatever the three deferred fetches do; a rejection of the
    footer fetch is passed to [console.error] and replaced by [null]; the
    cart and the login status have no handler of their own and go through
    [defer] only: a value stays that value and a rejection stays that
    rejection (a promise that settles with [undefined] becomes a
    rejection); and the console receives nothing but the footer's reason. *)
Theorem deferred_values_never_fail_loader
  (args : LoaderFunctionArgs) (c : Console) :
  (forall h, headerFetch args = Resolved h ->
     exists d,
       fst (loader getShopAnalytics args c) = Resolved d /\
       HandedOn (cart_get (context args)) (data_cart d) /\
       HandedOn (customerAccount_isLoggedIn (context args)) (data_isLoggedIn d) /\
       (forall e, footerFetch args = Rejected e -> data_footer d = Resolved JNull) /\
       (forall v, footerFetch args = Resolved v ->
                  HandedOn (Resolved v) (data_footer d))) /\
  snd (loader getShopAnalytics args c)
  = match footerFetch args with
    | Resolved _ => c
    | Rejected e => (c ++ [e])%list
    end.
Proof.
  split; [|apply loader_console].
  intros h Hh.
  destruct (loader_resolved args c h Hh) as (d & Hd & _ & Hc & Hl & Hf & _).
  exists d. split; [exact Hd|].
  split; [rewrite Hc; apply trackPromise_handed|].
  split; [rewrite Hl; apply trackPromise_handed|].
  split.
  - intros e He. now rewrite Hf, He.
  - intros v Hv. rewrite Hf, Hv. apply trackPromise_handed.
Qed.

End LoaderFacts.

Lemma header_failure_fatal_footer_failure_absorbed_witness :
  fst (loader sampleShop
         (sampleArgs (Rejected (JString "header down")) (Resolved (sampleMenu "footer"))
                     (Resolved JNull) (Resolved (JBool false))) [])
  = Rejected (JString "header down") /\
  exists d,
    fst (loader sampleShop
           (sampleArgs (Resolved (sampleMenu "main-menu")) (Rejected (JString "footer down"))
                       (Resolved JNull) (Resolved (JBool false))) [])
    = Resolved d /\
    data_footer d = Resolved JNull /\
    snd (loader sampleShop
           (sampleArgs (Resolved (sampleMenu "main-menu")) (Rejected (JString "footer down"))
                       (Resolved JNull) (Resolved (JBool false))) [])
    = [JString "footer down"].
Proof.
  split.
  - apply (proj1 (header_failure_fatal_footer_failure_absorbed sampleShop _ [])).
    reflexivity.
  - apply (proj2 (header_failure_fatal_footer_failure_absorbed sampleShop
                    (sampleArgs (Resolved (sampleMenu "main-menu"))
                                (Rejected (JString "footer down"))
                                (Resolved JNull) (Resolved (JBool false))) [])
             (JString "footer down") (sampleMenu "main-menu"));
      reflexivity.
Defined.

Lemma deferred_values_never_fail_loader_witness :
  exists d,
    fst (loader sampleShop
           (sampleArgs (Resolved (sampleMenu "main-menu")) (Rejected (JString "footer down"))
                       (Rejected (JString "cart down")) (Rejected (JString "session down"))) [])
    = Resolved d /\
    HandedOn (Rejected (JString "cart down")) (data_cart d) /\
    HandedOn (Rejected (JString "session down")) (data_isLoggedIn d) /\
    data_footer d = Resolved JNull.
Proof.
  destruct (proj1 (deferred_values_never_fail_loader sampleShop
                     (sampleArgs (Resolved (sampleMenu "main-menu"))
                                 (Rejected (JString "footer down"))
                                 (Rejected (JString "cart down"))
                                 (Rejected (JString "session down"))) [])
              (sampleMenu "main-menu") eq_refl) as (d & Hd & Hc & Hl & Hf & _).
  exists d. split; [exact Hd|]. split; [exact Hc|]. split; [exact Hl|].
  apply (Hf (JString "footer down")). reflexivity.
Defined.

(** C3 as stated fails: a rejected cart fetch is neither logged nor replaced
    by [null]; the loader resolves with the rejected value in its cart field
    and the console stays empty. *)
Lemma cart_failure_not_caught :
  exists d,
    loader sampleShop
      (sampleArgs (Resolved (sampleMenu "main-menu")) (Resolved (sampleMenu "footer"))
                  (Rejected (JString "cart down")) (Resolved (JBool true))) []
    = (Resolved d, []) /\
    data_cart d = Rejected (JString "cart down") /\
    data_cart d <> Resolved JNull.
Proof. eexists. split; [reflexivity|]. split; [reflexivity | discriminate]. Qed.

(** ** Error boundary *)

Lemma lookupField_absent (k : string) (fs : list (string * jsval)) :
  (forall v, ~ In (k, v) fs) -> lookupField k fs = JUndefined.
Proof.
  induction fs as [|[k' x] r IH]; intros H; [reflexivity|]. simpl.
  destruct (String.eqb_spec k' k) as [->|_].
  - elim (H x). now left.
  - apply IH. intros v Hv. apply (H v). now right.
Qed.

Lemma lookupField_first (k : string) (x : jsval) (l1 l2 : list (string * jsval)) :
  (forall v, ~ In (k, v) l1) -> lookupField k (l1 ++ (k, x) :: l2)%list = x.
Proof.
  induction l1 as [|[k' y] r IH]; intros H; simpl.
  - now rewrite String.eqb_refl.
  - destruct (String.eqb_spec k' k) as [->|_].
    + elim (H y). now left.
    + apply IH. intros v Hv. apply (H v). now right.
Qed.

(** C9: what the boundary shows, shape by shape.  An [Error] with a
    message shows 500 and that message; any other thrown value shows 500
    and "Unknown error"; a route error response shows its status and its
    data when the data is a string, or the [message] of its data when the
    data is an object with a string [message].  For a route error response
    whose data is an object without [message] the fallback is the object
    itself, which cannot be printed: rendering throws and the page shows
    neither status nor message. *)
Theorem error_boundary_shows_or_throws :
  (forall m, m <> "" ->
     shownStatus (ErrorBoundary (ErrorInstance m)) = Some 500%Z /\
     shownMessage (ErrorBoundary (ErrorInstance m)) = Some (JString m)) /\
  (forall v,
     shownStatus (ErrorBoundary (OtherError v)) = Some 500%Z /\
     shownMessage (ErrorBoundary (OtherError v)) = Some (JString "Unknown error")) /\
  (forall status statusText s, s <> "" ->
     shownStatus (ErrorBoundary (ErrorResponse status statusText (JString s)))
     = Some status /\
     shownMessage (ErrorBoundary (ErrorResponse status statusText (JString s)))
     = Some (JString s)) /\
  (forall status statusText l1 l2 m,
     m <> "" -> (forall v, ~ In ("message", v) l1) ->
     let data := JObject (l1 ++ ("message", JString m) :: l2)%list in
     shownStatus (ErrorBoundary (ErrorResponse status statusText data)) = Some status /\
     shownMessage (ErrorBoundary (ErrorResponse status statusText data))
     = Some (JString m)) /\
  (forall status statusText fields,
     (forall v, ~ In ("message", v) fields) ->
     ErrorBoundary (ErrorResponse status statusText (JObject fields)) = None /\
     shownStatus (ErrorBoundary (ErrorResponse status statusText (JObject fields)))
     = None).
Proof.
  split; [|split; [|split; [|split]]].
  - intros m Hm. destruct m; [now elim Hm | split; reflexivity].
  - intros v. split; reflexivity.
  - intros status statusText s Hs. destruct s; [now elim Hs | split; reflexivity].
  - intros status statusText l1 l2 m Hm H data.
    unfold data, ErrorBoundary, errorInfo, coalesce, optProp.
    rewrite (lookupField_first _ _ _ _ H).
    destruct m; [now elim Hm | split; reflexivity].
  - intros status statusText fields H.
    unfold ErrorBoundary, errorInfo, coalesce, optProp.
    rewrite (lookupField_absent _ _ H). split; reflexivity.
Qed.

Lemma error_boundary_shows_or_throws_witness :
  ErrorBoundary (ErrorResponse 400 "Bad Request" (JObject [("error", JString "Bad handle")]))
  = None /\
  shownMessage (ErrorBoundary (ErrorInstance "Network down")) = Some (JString "Network down") /\
  shownMessage (ErrorBoundary
    (ErrorResponse 400 "Bad Request"
       (JObject [("code", JNumber 7); ("message", JString "Bad handle")])))
  = Some (JString "Bad handle").
Proof.
  destruct error_boundary_shows_or_throws as (E & _ & _ & M & T).
  split; [|split].
  - apply (T 400%Z "Bad Request" [("error", JString "Bad handle")]).
    intros v [H | []]. discriminate H.
  - apply (E "Network down"). discriminate.
  - apply (M 400%Z "Bad Request" [("code", JNumber 7)] [] "Bad handle");
      [discriminate|].
    intros v [H | []]. discriminate H.
Defined.

Example boundary_not_found :
  let page := ErrorBoundary (ErrorResponse 404 "Not Found" (JString "No such page")) in
  shownStatus page = Some 404%Z /\ shownMessage page = Some (JString "No such page").
Proof. split; reflexivity. Qed.

Example boundary_data_message :
  let page := ErrorBoundary
                (ErrorResponse 400 "Bad Request"
                   (JObject [("code", JNumber 7); ("message", JString "Bad handle")])) in
  shownStatus page = Some 400%Z /\ shownMessage page = Some (JString "Bad handle").
Proof. split; reflexivity. Qed.

Example boundary_thrown_string :
  let page := ErrorBoundary (OtherError (JString "boom")) in
  shownStatus page = Some 500%Z /\ shownMessage page = Some (JString "Unknown error").
Proof. split; reflexivity. Qed.

(** * Further properties of the code *)

(** ** Filtered parameter string *)

Lemma allChars_append (P : ascii -> bool) (a b : string) :
  allChars P (a ++ b) = allChars P a && allChars P b.
Proof.
  induction a as [|x t IH]; simpl; [reflexivity|].
  now rewrite IH, andb_assoc.
Qed.

Lemma allChars_contains (P : ascii -> bool) (s : string) (c : ascii) :
  allChars P s = true -> contains c s = true -> P c = true.
Proof.
  induction s as [|x t IH]; simpl; [discriminate|].
  intros H Hc. apply andb_true_iff in H as [Hx Ht].
  apply orb_true_iff in Hc as [E | Hc]; [|now apply IH].
  apply Ascii.eqb_eq in E. now subst.
Qed.

Lemma encodeByte_alphabet (c : ascii) : allChars queryChar (Urlencoded.encodeByte c) = true.
Proof. each_byte c; reflexivity. Qed.

Lemma encode_alphabet (s : string) : allChars queryChar (Urlencoded.encode s) = true.
Proof.
  induction s as [|c t IH]; simpl; [reflexivity|].
  now rewrite allChars_append, encodeByte_alphabet, IH.
Qed.

Lemma serialize_alphabet (l : list (string * string)) :
  allChars queryChar (Urlencoded.serialize l) = true.
Proof.
  assert (P : forall p, allChars queryChar (Urlencoded.encodePair p) = true).
  { intros p. unfold Urlencoded.encodePair.
    now rewrite !allChars_append, !encode_alphabet. }
  induction l as [|p r IH]; [reflexivity|].
  destruct r as [|q r']; [apply P|].
  change (Urlencoded.serialize (p :: q :: r'))
    with (Urlencoded.encodePair p ++ String "&" (Urlencoded.serialize (q :: r'))).
  rewrite allChars_append, P. simpl. exact IH.
Qed.

(** X1: every character of the filtered parameter string is an ASCII letter
    or digit or one of [* - . _ % + = &], whatever bytes the parameter
    values hold. *)
Theorem cleanParams_alphabet (u : URL) (c : ascii) :
  contains c (cleanParams u) = true -> queryChar c = true.
Proof. apply allChars_contains, serialize_alphabet. Qed.

Lemma cleanParams_alphabet_witness :
  queryChar "%" = true.
Proof.
  apply (cleanParams_alphabet (withPath "/shop" [("color", "a#b c")]) "%").
  reflexivity.
Defined.

(** X2: two URLs have the same filtered parameter string exactly when they
    have the same [color] parameters, values and order included. *)
Theorem cleanParams_injective (u1 u2 : URL) :
  cleanParams u1 = cleanParams u2 <->
  filter (fun p => String.eqb (fst p) "color") (searchParams u1)
  = filter (fun p => String.eqb (fst p) "color") (searchParams u2).
Proof.
  rewrite <- !keptParams_filter. split.
  - intros H. apply (f_equal Urlencoded.parse) in H.
    now rewrite !parse_cleanParams in H.
  - unfold cleanParams. now intros ->.
Qed.

Lemma kept_nonempty_prefix (k v : string) (r : list (string * string)) :
  k = "color" ->
  String.prefix "color=" (Urlencoded.serialize ((k, v) :: r)) = true.
Proof.
  intros ->. destruct r as [|q r'].
  - exact (prefix_append "color=" (Urlencoded.encode v)).
  - exact (prefix_append "color="
             (Urlencoded.encode v ++ "&" ++ Urlencoded.serialize (q :: r'))).
Qed.

(** X3: the filtered parameter string begins with [color=] exactly when the
    URL has a parameter named [color], and is empty exactly when it has
    none. *)
Theorem cleanParams_color_or_empty (u : URL) :
  (String.prefix "color=" (cleanParams u) = true <->
   exists v, In ("color", v) (searchParams u)) /\
  (cleanParams u = "" <-> forall v, ~ In ("color", v) (searchParams u)).
Proof.
  assert (K : forall v, In ("color", v) (searchParams u) -> In ("color", v) (keptParams u)).
  { intros v H. rewrite keptParams_filter. apply filter_In. now split. }
  assert (S : forall k v, In (k, v) (keptParams u) -> In ("color", v) (searchParams u)).
  { intros k v H. pose proof (keptParams_keys u k v H) as ->.
    rewrite keptParams_filter in H. now apply filter_In in H. }
  unfold cleanParams. split; split.
  - destruct (keptParams u) as [|[k v] r] eqn:E; [discriminate|].
    intros _. exists v. apply (S k). now left.
  - intros [v H]. apply K in H.
    destruct (keptParams u) as [|[k w] r] eqn:E; [contradiction|].
    apply kept_nonempty_prefix. apply (keptParams_keys u k w). rewrite E. now left.
  - intros H v Hv. apply UrlencodedFacts.serialize_empty in H.
    apply K in Hv. now rewrite H in Hv.
  - intros H. apply UrlencodedFacts.serialize_empty.
    destruct (keptParams u) as [|[k v] r] eqn:E; [reflexivity|].
    elim (H v). apply (S k). now left.
Qed.

(** ** Canonical URL *)

Lemma contains_drop_true (c : ascii) (n : nat) (s : string) :
  contains c (drop n s) = true -> contains c s = true.
Proof.
  intros H. destruct (contains c s) eqn:E; [reflexivity|].
  now rewrite (contains_drop c n s E) in H.
Qed.

Lemma count_append (c : ascii) (a b : string) :
  count c (a ++ b) = count c a + count c b.
Proof. induction a as [|x t IH]; simpl; [reflexivity | rewrite IH; lia]. Qed.

Lemma count_absent (c : ascii) (s : string) : contains c s = false -> count c s = 0.
Proof.
  induction s as [|x t IH]; simpl; [reflexivity|].
  intros H. apply orb_false_iff in H as [-> H]. now rewrite IH.
Qed.

Lemma filter_idem {A} (f : A -> bool) (l : list A) : filter f (filter f l) = filter f l.
Proof.
  induction l as [|x r IH]; [reflexivity|]. simpl.
  destruct (f x) eqn:E; simpl; [now rewrite E, IH | exact IH].
Qed.

Lemma clean_by_pathname (u u' : URL) :
  pathname u' = pathname u -> cleanLocaleFromPathname u' = cleanLocaleFromPathname u.
Proof. unfold cleanLocaleFromPathname. now intros ->. Qed.

Lemma canonical_by_parts (u u' : URL) :
  origin u' = origin u ->
  cleanLocaleFromPathname u' = cleanLocaleFromPathname u ->
  keptParams u' = keptParams u ->
  createCanonicalUrl u' = createCanonicalUrl u /\ createHreflangs u' = createHreflangs u.
Proof.
  intros Ho Hp Hk.
  unfold createCanonicalUrl, createHreflangs, cleanParams.
  now rewrite Ho, Hp, Hk.
Qed.

Lemma unprefixed_clean (u : URL) :
  hasLocalePrefix (pathname u) = false -> cleanLocaleFromPathname u = pathname u.
Proof.
  intros H. apply clean_unprefixed. intros rest Hr.
  assert (hasLocalePrefix (pathname u) = true) by (apply hasLocalePrefix_iff; eauto).
  congruence.
Qed.

(** X4: a parameter whose key is not [color], wherever it stands among the
    parameters, changes neither the canonical URL nor the hreflang list. *)
Theorem canonical_ignores_other_params
  (u u' : URL) (l1 l2 : list (string * string)) (k v : string) :
  k <> "color" ->
  origin u' = origin u -> pathname u' = pathname u ->
  searchParams u = (l1 ++ l2)%list ->
  searchParams u' = (l1 ++ (k, v) :: l2)%list ->
  createCanonicalUrl u' = createCanonicalUrl u /\ createHreflangs u' = createHreflangs u.
Proof.
  intros Hk Ho Hp Hs Hs'.
  apply canonical_by_parts; [exact Ho | now apply clean_by_pathname |].
  rewrite !keptParams_filter, Hs, Hs', !filter_app. simpl.
  now destruct (String.eqb_spec k "color").
Qed.

Lemma canonical_ignores_other_params_witness :
  createCanonicalUrl (withPath "/shop" [("color", "red"); ("utm_source", "mail"); ("color", "blue")])
  = createCanonicalUrl (withPath "/shop" [("color", "red"); ("color", "blue")]).
Proof.
  apply (canonical_ignores_other_params
           (withPath "/shop" [("color", "red"); ("color", "blue")])
           (withPath "/shop" [("color", "red"); ("utm_source", "mail"); ("color", "blue")])
           [("color", "red")] [("color", "blue")] "utm_source" "mail");
    [discriminate | reflexivity ..].
Defined.

(** X5: the locale variants of a page share its canonical URL: when the
    pathname [p] starts with a slash and has no locale prefix of its own,
    the URL whose pathname is a locale segment followed by [p] has the
    canonical URL and the hreflang list of the URL whose pathname is [p]. *)
Theorem locale_variants_share_canonical
  (u u' : URL) (a b c d : ascii) (r : string) :
  asciiLetter a = true -> asciiLetter b = true ->
  asciiLetter c = true -> asciiLetter d = true ->
  pathname u = String "/" r ->
  hasLocalePrefix (pathname u) = false ->
  pathname u' = String "/" (String a (String b (String "-" (String c (String d (pathname u)))))) ->
  origin u' = origin u -> searchParams u' = searchParams u ->
  createCanonicalUrl u' = createCanonicalUrl u /\ createHreflangs u' = createHreflangs u.
Proof.
  intros Ha Hb Hc Hd Hr Hn Hp Ho Hs.
  apply canonical_by_parts; [exact Ho | | unfold keptParams; now rewrite Hs].
  rewrite (unprefixed_clean u Hn).
  assert (L : LocalePrefixed (pathname u') (pathname u)).
  { rewrite Hp. constructor; try assumption. right. now exists r. }
  rewrite (clean_prefixed u' _ L). now rewrite Hr.
Qed.

Lemma locale_variants_share_canonical_witness :
  createCanonicalUrl (withPath "/fr-CA/collections/bras" [("color", "sand")])
  = createCanonicalUrl (withPath "/collections/bras" [("color", "sand")]).
Proof.
  apply (locale_variants_share_canonical
           (withPath "/collections/bras" [("color", "sand")])
           (withPath "/fr-CA/collections/bras" [("color", "sand")])
           "f" "r" "C" "A" "collections/bras"); reflexivity.
Defined.

(** X6: canonicalising is idempotent when one stripping leaves no locale
    prefix: the canonical URL of a well-formed URL, read back and
    canonicalised again, is itself. *)
Theorem canonical_idempotent (u : URL) :
  wellFormed u ->
  hasLocalePrefix (cleanLocaleFromPathname u) = false ->
  createCanonicalUrl (reread u (createCanonicalUrl u)) = createCanonicalUrl u.
Proof.
  intros W Hn.
  assert (Hp : pathname (reread u (createCanonicalUrl u)) = cleanLocaleFromPathname u).
  { unfold reread, pathOf; cbn [pathname]. now rewrite (pathAndQuery_canonical u W). }
  assert (Hq : searchParams (reread u (createCanonicalUrl u)) = keptParams u).
  { unfold reread, queryParamsOf; cbn [searchParams].
    rewrite (pathAndQuery_canonical u W). apply parse_cleanParams. }
  apply canonical_by_parts.
  - reflexivity.
  - rewrite unprefixed_clean; rewrite Hp; [reflexivity | exact Hn].
  - unfold keptParams at 1. rewrite Hq. unfold keptParams. apply filter_idem.
Qed.

Lemma canonical_idempotent_witness :
  createCanonicalUrl (reread exampleUrl (createCanonicalUrl exampleUrl))
  = createCanonicalUrl exampleUrl.
Proof.
  apply (canonical_idempotent exampleUrl); [split; reflexivity | reflexivity].
Defined.

(** X7: the canonical URL of a well-formed URL holds one [?] when the
    filtered parameter string is not empty and none otherwise: parameter
    values never bring a second one. *)
Theorem canonical_question_marks (u : URL) :
  wellFormed u ->
  count "?" (createCanonicalUrl u) = if truthy (cleanParams u) then 1 else 0.
Proof.
  intros W. pose proof (clean_no_qmark u W) as Hc. destruct W as [Ho _].
  unfold createCanonicalUrl. destruct (truthy (cleanParams u)).
  - rewrite !count_append, (count_absent _ _ Ho), (count_absent _ _ Hc).
    unfold cleanParams.
    now rewrite (count_absent _ _ (UrlencodedFacts.serialize_no_qmark (keptParams u))).
  - now rewrite count_append, (count_absent _ _ Ho), (count_absent _ _ Hc).
Qed.

Lemma canonical_question_marks_witness :
  count "?" (createCanonicalUrl (withPath "/en-us/shop" [("color", "why?"); ("q", "?")])) = 1.
Proof.
  apply (canonical_question_marks (withPath "/en-us/shop" [("color", "why?"); ("q", "?")])).
  split; reflexivity.
Defined.

(** X8: the canonicaliser brings in no character of its own beyond [/], [?]
    and the serialiser's alphabet: any other character of the canonical URL
    occurs in the origin or in the pathname of the input. *)
Theorem canonical_characters (u : URL) (c : ascii) :
  contains c (createCanonicalUrl u) = true ->
  contains c (origin u) = true \/ contains c (pathname u) = true \/
  c = "/"%char \/ c = "?"%char \/ queryChar c = true.
Proof.
  assert (P : contains c (cleanLocaleFromPathname u) = true ->
              contains c (pathname u) = true \/ c = "/"%char).
  { destruct (clean_shape u) as [-> | [n ->]]; [now left|].
    change ("/" ++ drop n (pathname u)) with (String "/" (drop n (pathname u))).
    cbn [contains]. intros H. apply orb_true_iff in H as [E | H].
    - right. symmetry. now apply Ascii.eqb_eq.
    - left. now apply contains_drop_true with n. }
  assert (Q : contains c (cleanParams u) = true -> queryChar c = true).
  { apply allChars_contains, serialize_alphabet. }
  unfold createCanonicalUrl. destruct (truthy (cleanParams u)).
  - change (cleanLocaleFromPathname u ++ "?" ++ cleanParams u)
      with (cleanLocaleFromPathname u ++ String "?" (cleanParams u)).
    rewrite !contains_append. cbn [contains]. rewrite !orb_true_iff.
    intros [H | [H | [H | H]]]; auto 8.
    + apply P in H as [H | H]; auto.
    + apply Ascii.eqb_eq in H. auto.
  - rewrite contains_append, orb_true_iff.
    intros [H | H]; auto. apply P in H as [H | H]; auto.
Qed.

Lemma canonical_characters_witness :
  contains "s" (origin exampleUrl) = true \/ contains "s" (pathname exampleUrl) = true \/
  "s"%char = "/"%char \/ "s"%char = "?"%char \/ queryChar "s" = true.
Proof. apply (canonical_characters exampleUrl "s"). reflexivity. Defined.

(** X9: locale stripping keeps the leading slash of a pathname, leaves a
    pathname without leading slash as it is, and never makes a pathname
    longer. *)
Theorem clean_pathname_shape (u : URL) :
  (String.prefix "/" (pathname u) = true ->
   String.prefix "/" (cleanLocaleFromPathname u) = true) /\
  (String.prefix "/" (pathname u) = false ->
   cleanLocaleFromPathname u = pathname u) /\
  String.length (cleanLocaleFromPathname u) <= String.length (pathname u).
Proof.
  destruct (hasLocalePrefix (pathname u)) eqn:E.
  - apply hasLocalePrefix_iff in E as [rest H].
    rewrite (clean_prefixed u rest H).
    destruct H as [a b c d rest Ha Hb Hc Hd [-> | [r ->]]];
      (split; [intros _; first [reflexivity | now destruct r]
              | split; [intros N; discriminate N | simpl; lia]]).
  - rewrite (unprefixed_clean u E). repeat split; auto.
Qed.

Lemma clean_pathname_shape_witness :
  String.prefix "/" (cleanLocaleFromPathname exampleUrl) = true /\
  cleanLocaleFromPathname (withPath "en-us/shop" []) = "en-us/shop".
Proof.
  split.
  - apply (proj1 (clean_pathname_shape exampleUrl)). reflexivity.
  - apply (proj1 (proj2 (clean_pathname_shape (withPath "en-us/shop" [])))). reflexivity.
Defined.

(** ** SEO descriptor *)

(** X10: the descriptor is consistent: its url, the url of its structured
    data and the url of every alternate are the canonical URL of the
    request. *)
Theorem seo_urls_agree (u : URL) :
  seo_url (rootSeo u) = createCanonicalUrl u /\
  ld_url (jsonLd (rootSeo u)) = seo_url (rootSeo u) /\
  (forall h, In h (alternates (rootSeo u)) -> url h = seo_url (rootSeo u)) /\
  alternates (rootSeo u) <> [].
Proof.
  repeat split; try discriminate.
  intros h [<- | []]. cbn [rootSeo seo_url url]. apply hreflang_url.
Qed.

Lemma seo_urls_agree_witness :
  url (mkHreflang "en-us" "https://www.honeylove.com/shop?color=red" true)
  = seo_url (rootSeo exampleUrl).
Proof.
  apply (proj1 (proj2 (proj2 (seo_urls_agree exampleUrl)))). left; reflexivity.
Defined.

(** X11: a host that carries a port is never flagged, the two staging and
    development hostnames included, since the comparison is made on
    [url.host]. *)
Theorem noFollow_false_with_port (u : URL) :
  contains ":" (host u) = true -> noFollow (robots (rootSeo u)) = false.
Proof.
  intros H. cbn [rootSeo robots noFollow].
  destruct (String.eqb_spec (host u) "dev.honeylove.com") as [E|_];
    [rewrite E in H; discriminate H|].
  destruct (String.eqb_spec (host u) "staging.honeylove.com") as [E|_];
    [rewrite E in H; discriminate H|].
  reflexivity.
Qed.

Lemma noFollow_false_with_port_witness :
  noFollow (robots (rootSeo
    {| href := "http://dev.honeylove.com:3000/";
       origin := "http://dev.honeylove.com:3000";
       host := "dev.honeylove.com:3000";
       pathname := "/";
       searchParams := [] |})) = false.
Proof. apply noFollow_false_with_port. reflexivity. Defined.

(** ** Revalidation *)

(** X12: the answer does not change when the current and the next URL are
    exchanged. *)
Theorem shouldRevalidate_symmetric (m : option string) (u1 u2 : URL) :
  shouldRevalidate {| formMethod := m; currentUrl := u1; nextUrl := u2 |}
  = shouldRevalidate {| formMethod := m; currentUrl := u2; nextUrl := u1 |}.
Proof.
  unfold shouldRevalidate; cbn [formMethod currentUrl nextUrl].
  now rewrite (String.eqb_sym (href u1) (href u2)).
Qed.

(** X13: without a form method, with the empty one or with [GET], the
    loader is run again exactly when the two URLs are the same string. *)
Theorem shouldRevalidate_without_mutation (a : ShouldRevalidateArgs) :
  formMethod a = None \/ formMethod a = Some "" \/ formMethod a = Some "GET" ->
  shouldRevalidate a = String.eqb (href (currentUrl a)) (href (nextUrl a)).
Proof.
  unfold shouldRevalidate. intros [-> | [-> | ->]]; simpl;
    now destruct (String.eqb _ _).
Qed.

Lemma shouldRevalidate_without_mutation_witness :
  shouldRevalidate {| formMethod := Some "GET";
                      currentUrl := withPath "/collections/bras" [];
                      nextUrl := withPath "/cart" [] |}
  = false.
Proof.
  exact (shouldRevalidate_without_mutation
           {| formMethod := Some "GET";
              currentUrl := withPath "/collections/bras" [];
              nextUrl := withPath "/cart" [] |}
           (or_intror (or_intror eq_refl))).
Defined.

(** X14: the method is compared with [GET] letter for letter: a method that
    differs from it, if only in case, makes the loader run again whatever
    the two URLs are. *)
Theorem shouldRevalidate_method_case (a : ShouldRevalidateArgs) (m : string) :
  formMethod a = Some m -> lowerStr m = "get" -> m <> "GET" ->
  shouldRevalidate a = true.
Proof.
  intros Hm Hl Hg. unfold shouldRevalidate. rewrite Hm.
  destruct m as [|c t]; [discriminate Hl|]. cbn [truthy andb].
  now destruct (String.eqb_spec (String c t) "GET").
Qed.

Lemma shouldRevalidate_method_case_witness :
  shouldRevalidate {| formMethod := Some "get";
                      currentUrl := withPath "/collections/bras" [];
                      nextUrl := withPath "/cart" [] |}
  = true.
Proof.
  apply (shouldRevalidate_method_case _ "get"); [reflexivity | reflexivity | discriminate].
Defined.

(** ** Page data loader *)

Section LoaderMore.

Variable getShopAnalytics : Storefront -> string -> Promise jsval.

(** X15: the loader resolves exactly when the header fetch resolves and
    rejects exactly when it rejects, with the same reason; no other fetch
    has a say. *)
Theorem loader_settles_with_header (args : LoaderFunctionArgs) (c : Console) :
  ((exists d, fst (loader getShopAnalytics args c) = Resolved d) <->
   (exists h, headerFetch args = Resolved h)) /\
  (forall e, fst (loader getShopAnalytics args c) = Rejected e <->
             headerFetch args = Rejected e).
Proof.
  destruct (headerFetch args) as [h|e0] eqn:E.
  - destruct (loader_resolved getShopAnalytics args c h E) as (d & Hd & _).
    rewrite Hd. split; [split; eauto | split; discriminate].
  - rewrite (loader_rejected getShopAnalytics args c e0 E). split.
    + split; intros [x H]; discriminate H.
    + intros e. split; congruence.
Qed.

Lemma trackPromise_defined (key : string) (p : Promise jsval) :
  trackPromise key p <> Resolved JUndefined.
Proof. destruct p as [[]|[]]; discriminate. Qed.

(** X16: in the bundle of a resolved loader no deferred field (cart, login
    status, footer, shop analytics) resolves with [undefined], since [defer]
    turns such a promise into a rejection; and the footer field, whose fetch
    failures are caught, is a rejection exactly when the footer query
    resolved with [undefined]. *)
Theorem bundle_deferred_fields (args : LoaderFunctionArgs) (c : Console) (d : RootData) :
  fst (loader getShopAnalytics args c) = Resolved d ->
  data_cart d <> Resolved JUndefined /\
  data_isLoggedIn d <> Resolved JUndefined /\
  data_footer d <> Resolved JUndefined /\
  shop d <> Resolved JUndefined /\
  ((exists e, data_footer d = Rejected e) <-> footerFetch args = Resolved JUndefined).
Proof.
  intros H. destruct (headerFetch args) as [h|e0] eqn:E.
  - destruct (loader_resolved getShopAnalytics args c h E)
      as (d' & Hd & _ & Hc & Hl & Hf & Hs).
    rewrite Hd in H. injection H as <-.
    rewrite Hc, Hl, Hf, Hs.
    repeat (split; [apply trackPromise_defined|]).
    destruct (footerFetch args) as [[]|e]; simpl; split;
      solve [ intros [x Hx]; discriminate Hx | discriminate | eauto ].
  - now rewrite (loader_rejected getShopAnalytics args c e0 E) in H.
Qed.

(** X17: the deferred footer never settles as a rejection, and the deferred
    loading writes at most one entry to the console, after what was there. *)
Theorem deferred_footer_never_rejected (args : LoaderFunctionArgs) (c : Console) :
  (exists v, footer (fst (loadDeferredData args c)) = Resolved v) /\
  (exists l, snd (loadDeferredData args c) = (c ++ l)%list /\ List.length l <= 1).
Proof.
  rewrite loadDeferredData_run; cbn [fst snd footer].
  destruct (footerFetch args) as [v|e].
  - split; [now exists v | exists []].
    split; [now rewrite app_nil_r | simpl; lia].
  - split; [now exists JNull | exists [e]].
    split; [reflexivity | simpl; lia].
Qed.

(** X18: the critical loading writes nothing to the console, and resolves
    with the fetched header or rejects with the fetch's reason. *)
Theorem critical_silent (args : LoaderFunctionArgs) (c : Console) :
  snd (loadCriticalData args c) = c /\
  (forall h, headerFetch args = Resolved h ->
     fst (loadCriticalData args c) = Resolved {| header := h |}) /\
  (forall e, headerFetch args = Rejected e ->
     fst (loadCriticalData args c) = Rejected e).
Proof.
  rewrite loadCriticalData_run; cbn [fst snd].
  repeat split; now intros ? ->.
Qed.

End LoaderMore.

Lemma bundle_deferred_fields_witness :
  exists d,
    fst (loader sampleShop
           (sampleArgs (Resolved (sampleMenu "main-menu")) (Resolved JUndefined)
                       (Resolved JNull) (Resolved (JBool false))) [])
    = Resolved d /\
    exists e, data_footer d = Rejected e.
Proof.
  eexists. split; [reflexivity|].
  apply (proj2 (proj2 (proj2 (proj2 (bundle_deferred_fields sampleShop
           (sampleArgs (Resolved (sampleMenu "main-menu")) (Resolved JUndefined)
                       (Resolved JNull) (Resolved (JBool false))) [] _ eq_refl))))).
  reflexivity.
Defined.

Lemma critical_silent_witness :
  fst (loadCriticalData
         (sampleArgs (Rejected (JString "header down")) (Resolved JNull)
                     (Resolved JNull) (Resolved JNull)) [JString "earlier"])
  = Rejected (JString "header down").
Proof.
  apply (proj2 (proj2 (critical_silent
           (sampleArgs (Rejected (JString "header down")) (Resolved JNull)
                       (Resolved JNull) (Resolved JNull)) [JString "earlier"]))).
  reflexivity.
Defined.

(** ** Error boundary *)




